(** * QuickSwap interface: the liquidity-range presets and their risk score

    A shallow embedding of the pure computations of
    [pages/PoolsPage/v3/SupplyLiquidityV3/components/PresetRanges/index.tsx]
    (the [ranges], [risk] and [_risk] memos and the preset buttons' [onClick])
    and of the price inversion used by the add-liquidity button.

    Numbers.  A JavaScript number is modelled by [number]: an exact rational,
    the negative zero, the two infinities or NaN.  The special values follow
    IEEE 754 as JavaScript has them; the rounding of finite results (and the
    overflow and underflow that come with a bounded exponent) is abstracted:
    finite arithmetic is exact. *)

From Stdlib Require Import ZArith QArith Qround Qabs Lqa Lia Bool List.
From Stdlib Require Import Ascii String.
Import ListNotations.

Local Open Scope Q_scope.

(* ================================================================= *)
(** ** JavaScript numbers *)

Module JS.

Inductive number : Type :=
| Fin (q : Q)          (* a finite value; [Fin q] with [q == 0] is +0 *)
| NegZero              (* -0 *)
| Inf (neg : bool)     (* +Infinity ([false]) and -Infinity ([true]) *)
| NaN.

Definition Qltb (x y : Q) : bool :=
  match x ?= y with Lt => true | _ => false end.

Definition Qeqb (x y : Q) : bool :=
  match x ?= y with Eq => true | _ => false end.

(** The sign bit. *)
Definition signbit (x : number) : bool :=
  match x with
  | Fin q => Qltb q 0
  | NegZero => true
  | Inf s => s
  | NaN => false
  end.

Definition is_zero (x : number) : bool :=
  match x with
  | Fin q => Qeqb q 0
  | NegZero => true
  | _ => false
  end.

Definition zero (neg : bool) : number := if neg then NegZero else Fin 0.

(** A finite result of a product or a quotient: a zero takes the sign
    computed from the operands. *)
Definition signed (neg : bool) (q : Q) : number :=
  if Qeqb q 0 then zero neg else Fin q.

(** The rational value of a finite number. *)
Definition value (x : number) : Q :=
  match x with Fin q => q | _ => 0 end.

Definition is_finite (x : number) : bool :=
  match x with Fin _ | NegZero => true | _ => false end.

(** [x + y] *)
Definition add (x y : number) : number :=
  match x, y with
  | NaN, _ | _, NaN => NaN
  | Inf s, Inf s' => if Bool.eqb s s' then Inf s else NaN
  | Inf s, _ | _, Inf s => Inf s
  | NegZero, NegZero => NegZero
  | _, _ => Fin (value x + value y)
  end.

(** [- x] *)
Definition neg (x : number) : number :=
  match x with
  | NaN => NaN
  | Inf s => Inf (negb s)
  | NegZero => Fin 0
  | Fin q => if Qeqb q 0 then NegZero else Fin (- q)
  end.

(** [x - y] *)
Definition sub (x y : number) : number := add x (neg y).

(** [x * y] *)
Definition mul (x y : number) : number :=
  let s := xorb (signbit x) (signbit y) in
  match x, y with
  | NaN, _ | _, NaN => NaN
  | Inf _, _ => if is_zero y then NaN else Inf s
  | _, Inf _ => if is_zero x then NaN else Inf s
  | _, _ => signed s (value x * value y)
  end.

(** [x / y] *)
Definition div (x y : number) : number :=
  let s := xorb (signbit x) (signbit y) in
  match x, y with
  | NaN, _ | _, NaN => NaN
  | Inf _, Inf _ => NaN
  | Inf _, _ => Inf s
  | _, Inf _ => zero s
  | _, _ =>
      if is_zero y then (if is_zero x then NaN else Inf s)
      else signed s (value x / value y)
  end.

(** [Math.abs(x)] *)
Definition abs (x : number) : number :=
  match x with
  | NaN => NaN
  | Inf _ => Inf false
  | NegZero => Fin 0
  | Fin q => Fin (Qabs q)
  end.

(** [x < y]; false as soon as an operand is NaN. *)
Definition lt (x y : number) : bool :=
  match x, y with
  | NaN, _ | _, NaN => false
  | Inf s, Inf s' => s && negb s'
  | Inf s, _ => s
  | _, Inf s => negb s
  | _, _ => Qltb (value x) (value y)
  end.

(** [x > y] *)
Definition gt (x y : number) : bool := lt y x.

(** [x === y] on numbers: NaN differs from itself, the zeros are equal. *)
Definition strict_eq (x y : number) : bool :=
  match x, y with
  | NaN, _ | _, NaN => false
  | Inf s, Inf s' => Bool.eqb s s'
  | Inf _, _ | _, Inf _ => false
  | _, _ => Qeqb (value x) (value y)
  end.

(** [x <= y] *)
Definition le (x y : number) : bool := lt x y || strict_eq x y.

(** [x >= y] *)
Definition ge (x y : number) : bool := le y x.

(** Two numbers are the same value (finite ones up to the representation
    of the fraction). *)
Definition same (x y : number) : Prop :=
  match x, y with
  | Fin p, Fin q => p == q
  | NegZero, NegZero => True
  | Inf s, Inf s' => s = s'
  | NaN, NaN => True
  | _, _ => False
  end.

(** [x] is finite and its value is the rational [q] (of either zero, 0). *)
Definition finite_value (x : number) (q : Q) : Prop :=
  match x with
  | Fin p => p == q
  | NegZero => 0 == q
  | _ => False
  end.

End JS.

(* ================================================================= *)
(** ** Strings as numbers: the unary [+] on a string *)

Module StringToNumber.

Import JS.

Local Open Scope char_scope.
Local Open Scope Z_scope.

(** White space and line terminators (of the ASCII range). *)
Definition is_white (c : ascii) : bool :=
  let n := Z.of_N (N_of_ascii c) in
  ((9 <=? n) && (n <=? 13)) || (n =? 32).

Fixpoint trim_start (l : list ascii) : list ascii :=
  match l with
  | c :: r => if is_white c then trim_start r else l
  | [] => []
  end.

Definition trim (l : list ascii) : list ascii :=
  rev (trim_start (rev (trim_start l))).

Definition digit_of (base : Z) (c : ascii) : option Z :=
  let n := Z.of_N (N_of_ascii c) in
  let d := if (48 <=? n) && (n <=? 57) then n - 48
           else if (97 <=? n) && (n <=? 102) then n - 87
           else if (65 <=? n) && (n <=? 70) then n - 55
           else base in
  if d <? base then Some d else None.

(** The longest prefix of digits, and what follows it. *)
Fixpoint digits (base : Z) (l : list ascii) : list Z * list ascii :=
  match l with
  | c :: r =>
      match digit_of base c with
      | Some d => let (ds, rest) := digits base r in (d :: ds, rest)
      | None => ([], l)
      end
  | [] => ([], [])
  end.

Definition numeral (base : Z) (ds : list Z) : Z :=
  fold_left (fun n d => base * n + d) ds 0.

Definition sign_prefix (l : list ascii) : bool * list ascii :=
  match l with
  | "-" :: r => (true, r)
  | "+" :: r => (false, r)
  | _ => (false, l)
  end.

(** The exponent part at the end of a literal: nothing, or [e], an
    optional sign and at least one digit. *)
Definition exponent_part (l : list ascii) : option Z :=
  match l with
  | [] => Some 0
  | c :: r =>
      if Ascii.eqb c "e" || Ascii.eqb c "E" then
        let (s, r') := sign_prefix r in
        match digits 10 r' with
        | ((_ :: _) as ds, []) =>
            Some (if s then - numeral 10 ds else numeral 10 ds)
        | _ => None
        end
      else None
  end.

(** An unsigned decimal literal: digits, an optional point and digits (one
    of the two digit runs is not empty), an optional exponent. *)
Definition unsigned_decimal (l : list ascii) : option Q :=
  let (ip, r1) := digits 10 l in
  let (fp, r2) := match r1 with
                  | "." :: r => digits 10 r
                  | _ => ([], r1)
                  end in
  match ip ++ fp, exponent_part r2 with
  | (_ :: _) as ds, Some e =>
      Some ((inject_Z (numeral 10 ds) * 10 ^ (e - Z.of_nat (List.length fp)))%Q)
  | _, _ => None
  end.

(** A literal with a radix prefix: [0x], [0o] or [0b] and digits. *)
Definition non_decimal (l : list ascii) : option Z :=
  match l with
  | "0" :: p :: r =>
      let base := if Ascii.eqb p "x" || Ascii.eqb p "X" then 16
                  else if Ascii.eqb p "o" || Ascii.eqb p "O" then 8
                  else if Ascii.eqb p "b" || Ascii.eqb p "B" then 2
                  else 0 in
      match digits base r with
      | ((_ :: _) as ds, []) => Some (numeral base ds)
      | _ => None
      end
  | _ => None
  end.

Definition Infinity_literal : list ascii :=
  list_ascii_of_string "Infinity".

(** StringToNumber: the empty (or all white) string is +0, a string that is
    no numeric literal is NaN. *)
Definition StringToNumber (s : string) : number :=
  let l := trim (list_ascii_of_string s) in
  match l with
  | [] => Fin 0
  | _ =>
      match non_decimal l with
      | Some n => Fin (inject_Z n)
      | None =>
          let (neg, r) := sign_prefix l in
          if list_eq_dec ascii_dec r Infinity_literal then Inf neg
          else match unsigned_decimal r with
               | Some q => if Qeqb q 0%Q then zero neg
                           else Fin (if neg then (- q)%Q else q)
               | None => NaN
               end
      end
  end.

End StringToNumber.

(* ================================================================= *)
(** ** Numbers as strings: [toString] and its pieces around the point *)

Module NumberToString.

Import JS.

(** How often [a >= 10] is divided by ten until it is below ten. *)
Fixpoint scale_down (fuel : nat) (a : Q) (e : Z) : Z :=
  match fuel with
  | O => e
  | S f => if Qltb a 10 then e else scale_down f (a / 10) (e + 1)%Z
  end.

(** How often [a < 1] is multiplied by ten until it reaches one. *)
Fixpoint scale_up (fuel : nat) (a : Q) (e : Z) : Z :=
  match fuel with
  | O => e
  | S f => if Qltb a 1 then scale_up f (a * 10) (e - 1)%Z else e
  end.

(** The decimal exponent [e] of a positive [a]: [10^e <= a < 10^(e+1)]. *)
Definition decimal_exponent (a : Q) : Z :=
  if Qltb a 1
  then scale_up (S (Pos.size_nat (Qden a))) a 0
  else scale_down (S (Z.to_nat (Z.log2 (Qnum a)))) a 0.

Definition is_integer (a : Q) : bool := Qeqb (inject_Z (Qfloor a)) a.

(** The string [toString] prints, by its parts.  A decimal numeral has a
    sign, the digits before the point (the integer they write), the digits
    after the point when there is a point (the fraction [0.ddd] they
    write, in (0,1)), and an exponent when the number is printed in
    exponent notation.  The digits are kept by the values they write:
    with exact arithmetic the digits of a fraction need not end. *)
Inductive numeral : Type :=
| NumNaN
| NumInfinity (neg : bool)
| NumDecimal (neg : bool) (int : Z) (frac : option Q) (exp : option Z).

(** Number.prototype.toString (radix ten): decimal notation for
    [1e-6 <= |x| < 1e21], exponent notation outside; both zeros print [0]. *)
Definition toString (x : number) : numeral :=
  match x with
  | NaN => NumNaN
  | Inf s => NumInfinity s
  | NegZero => NumDecimal false 0 None None
  | Fin q =>
      if Qeqb q 0 then NumDecimal false 0 None None
      else
        let a := Qabs q in
        let plain := negb (Qltb a (1 # 1000000)) && Qltb a (10 ^ 21) in
        let e := decimal_exponent a in
        let m := if plain then a else a / 10 ^ e in
        NumDecimal (Qltb q 0) (Qfloor m)
          (if is_integer m then None else Some (m - inject_Z (Qfloor m)))
          (if plain then None else Some e)
  end.

(** [+ s.split('.')[0]]: the numeral up to its point, as a number. *)
Definition split_0 (s : numeral) : number :=
  match s with
  | NumNaN => NaN
  | NumInfinity neg => Inf neg
  | NumDecimal neg int frac exp =>
      let e := match frac, exp with
               | None, Some e => e   (* no point: the exponent is in [split[0]] *)
               | _, _ => 0%Z
               end in
      let q := inject_Z int * 10 ^ e in
      if Qeqb q 0 then zero neg else Fin (if neg then - q else q)
  end.

(** [parseFloat('0.' + s.split('.')[1])]: without a point [split[1]] is
    undefined and the string parsed is [0.undefined], which gives 0;
    with a point it is [0.], the fraction digits and the exponent. *)
Definition split_1 (s : numeral) : number :=
  match s with
  | NumDecimal _ _ (Some f) exp =>
      Fin (f * 10 ^ (match exp with Some e => e | None => 0%Z end))
  | _ => Fin 0
  end.

End NumberToString.

(* ================================================================= *)
(** ** Completions: a step returns a value or throws *)

Module Completion.

Inductive completion (A : Type) : Type :=
| Normal (a : A)
| Throw.                (* a TypeError *)

Arguments Normal {A} a.
Arguments Throw {A}.

Definition bind {A B : Type} (c : completion A) (k : A -> completion B)
  : completion B :=
  match c with
  | Normal a => k a
  | Throw => Throw
  end.

(** [for (let i = from; i < from + count; i++) body] over an accumulator. *)
Fixpoint for_loop {A : Type} (count : nat) (i : Z)
  (body : Z -> A -> completion A) (acc : A) : completion A :=
  match count with
  | O => Normal acc
  | S n => bind (body i acc) (for_loop n (i + 1)%Z body)
  end.

End Completion.

Declare Scope js_scope.
Delimit Scope js_scope with js.
Notation "x + y" := (JS.add x y) : js_scope.
Notation "x - y" := (JS.sub x y) : js_scope.
Notation "x * y" := (JS.mul x y) : js_scope.
Notation "x / y" := (JS.div x y) : js_scope.
Notation "x <? y" := (JS.lt x y) (at level 70) : js_scope.
Notation "x >? y" := (JS.gt x y) (at level 70) : js_scope.
Notation "x === y" := (JS.strict_eq x y) (at level 70) : js_scope.
Notation "x <- c ;; k" := (Completion.bind c (fun x => k))
  (at level 61, c at next level, right associativity) : js_scope.

(* ================================================================= *)
(** ** The component [PresetRanges] *)

Module PresetRanges.

Import JS Completion.

(** [enum Presets] of [state/mint/v3/reducer], by the members the
    component names. *)
Inductive Presets : Type := RISK | SAFE | NORMAL | FULL | STABLE.

Definition Presets_eqb (a b : Presets) : bool :=
  match a, b with
  | RISK, RISK | SAFE, SAFE | NORMAL, NORMAL | FULL, FULL
  | STABLE, STABLE => true
  | _, _ => false
  end.

Inductive PresetProfits : Type := VERY_LOW | LOW | MEDIUM | HIGH.

(** An entry of [ranges]; it is passed where an [IPresetArgs]
    ([type], [min], [max]) is expected. *)
Record Range : Type := mkRange {
  type : Presets;
  title : string;
  min : number;
  max : number;
  risk_tier : PresetProfits;      (* the field [risk] *)
  profit : PresetProfits
}.

Definition Infinity : number := Inf false.

(** A string prop: [string | undefined].  It is falsy when it is undefined
    or empty. *)
Definition falsy (s : option string) : bool :=
  match s with
  | None => true
  | Some EmptyString => true
  | Some _ => false
  end.

(** [+s] *)
Definition to_number (s : option string) : number :=
  match s with
  | Some str => StringToNumber.StringToNumber str
  | None => NaN
  end.

Local Open Scope js_scope.

(** [100 - (+price / +priceUpper) * 100] *)
Definition upperPercent (price priceUpper : number) : number :=
  Fin 100 - (price / priceUpper) * Fin 100.

(** [Math.abs(100 - (+price / +priceLower) * 100)] *)
Definition lowerPercent (price priceLower : number) : number :=
  abs (Fin 100 - (price / priceLower) * Fin 100).

Definition rangePercent (priceUpper priceLower price : number) : number :=
  let upperPercent := upperPercent price priceUpper in
  let lowerPercent := lowerPercent price priceLower in
  if (priceLower >? price) && (priceUpper >? Fin 0)
  then upperPercent - lowerPercent
  else upperPercent + lowerPercent.

(** The chain of comparisons that ends the [risk] memo. *)
Definition riskBand (rangePercent : number) : number :=
  if rangePercent <? Fin 7.5 then Fin 5
  else if rangePercent <? Fin 15 then (Fin 15 - rangePercent) / Fin 7.5 + Fin 4
  else if rangePercent <? Fin 30 then (Fin 30 - rangePercent) / Fin 15 + Fin 3
  else if rangePercent <? Fin 60 then (Fin 60 - rangePercent) / Fin 30 + Fin 2
  else if rangePercent <? Fin 120 then (Fin 120 - rangePercent) / Fin 60 + Fin 1
  else Fin 1.

(** The [risk] memo; [None] is [undefined]. *)
Definition risk (priceUpper priceLower price : option string)
  : option number :=
  if falsy priceUpper || falsy priceLower || falsy price then None
  else Some (riskBand (rangePercent (to_number priceUpper)
                                    (to_number priceLower)
                                    (to_number price))).

(** [split[0]] and [split[1]] are read on [split]: a read on [undefined]
    throws. *)
Definition read {A : Type} (split : option NumberToString.numeral)
  (get : NumberToString.numeral -> A) : completion A :=
  match split with
  | Some s => Normal (get s)
  | None => Throw
  end.

Definition push (res : list number) (x : number) : list number := res ++ [x].

(** The [_risk] memo.  [risk?.toString().split('.')] is undefined when
    [risk] is (the optional chain stops there). *)
Definition _risk (risk : option number) : completion (option (list number)) :=
  let res := [] in
  let split := option_map NumberToString.toString risk in
  match split with
  | None => Normal None
  | Some _ =>
      res <- for_loop 5 0 (fun i res =>
               let i := Fin (inject_Z i) in
               s0 <- read split NumberToString.split_0 ;;
               if i <? s0 then Normal (push res (Fin 100))
               else
                 s0 <- read split NumberToString.split_0 ;;
                 if i === s0 then
                   f <- read split NumberToString.split_1 ;;
                   Normal (push res (f * Fin 100))
                 else Normal (push res (Fin 0))) res ;;
      Normal (Some res)
  end.

(** What the iteration [i] of the loop of [_risk] pushes, for the printed
    score [s]. *)
Definition segment (s : NumberToString.numeral) (i : Z) : number :=
  let i := Fin (inject_Z i) in
  if i <? NumberToString.split_0 s then Fin 100
  else if i === NumberToString.split_0 s
       then NumberToString.split_1 s * Fin 100
       else Fin 0.

Section Component.

(** The translation function of [useTranslation]. *)
Variable t : string -> string.

(** The [ranges] memo. *)
Definition ranges (isStablecoinPair : bool) : list Range :=
  if isStablecoinPair then
    [ {| type := STABLE; title := t "stablecoins";
         min := Fin 0.984; max := Fin 1.016;
         risk_tier := VERY_LOW; profit := HIGH |} ]
  else
    [ {| type := FULL; title := t "fullRange";
         min := Fin 0; max := Infinity;
         risk_tier := VERY_LOW; profit := VERY_LOW |};
      {| type := SAFE; title := t "safe";
         min := Fin 0.8; max := Fin 1.4;
         risk_tier := LOW; profit := LOW |};
      {| type := NORMAL; title := t "common";
         min := Fin 0.9; max := Fin 1.2;
         risk_tier := MEDIUM; profit := MEDIUM |};
      {| type := RISK; title := t "expert";
         min := Fin 0.95; max := Fin 1.1;
         risk_tier := HIGH; profit := HIGH |} ].

(** The state the handler works on, and the handler prop. *)
Variable State : Type.
Variable handlePresetRangeSelection : option Range -> State -> State.

(** [activePreset == range.type], with [activePreset : Presets | null]. *)
Definition is_active (activePreset : option Presets) (range : Range) : bool :=
  match activePreset with
  | Some p => Presets_eqb p (type range)
  | None => false
  end.

(** The [onClick] of the button of [range]; [activePreset] is the prop of
    the render the button belongs to. *)
Definition onClick (activePreset : option Presets) (range : Range)
  (s : State) : State :=
  let s := handlePresetRangeSelection (Some range) s in
  if is_active activePreset range
  then handlePresetRangeSelection None s
  else handlePresetRangeSelection (Some range) s.

End Component.

(** A handler that only records the arguments it is called with, in the
    order of the calls. *)
Definition log_call (arg : option Range) (calls : list (option Range))
  : list (option Range) := calls ++ [arg].

End PresetRanges.

(* ================================================================= *)
(** ** Price inversion *)

Module Inverter.

Import JS.

Local Open Scope js_scope.

Section Tokens.

Variable Token : Type.

(** What the hook returns to the add-liquidity button: the two bounds to
    display and the token they are quoted for. *)
Record Display : Type := mkDisplay {
  priceLower : number;
  priceUpper : number;
  base : Token
}.

(** Modelled from the spec: the hook [useInverter] of [hooks/v3/useInverter]
    is not among the sources; the add-liquidity button only calls it, with
    the bounds, the two wrapped tokens and [invert: manuallyInverted].
    When inverted, the bounds are swapped and reciprocated: the new lower
    bound is [1 / oldUpper], the new upper bound is [1 / oldLower], and
    the display is quoted for the other token. *)
Definition invertPrice (priceLower priceUpper : number) (quote base : Token)
  (invert : bool) : Display :=
  if invert
  then {| priceLower := Fin 1 / priceUpper;
          priceUpper := Fin 1 / priceLower;
          base := quote |}
  else {| priceLower := priceLower;
          priceUpper := priceUpper;
          base := base |}.

End Tokens.

Arguments priceLower {Token} _.
Arguments priceUpper {Token} _.
Arguments base {Token} _.
Arguments invertPrice {Token} _ _ _ _ _.

End Inverter.

(* ================================================================= *)
(** ** What the claims say, in the rationals *)

Module Spec.

Import JS.

(** The bands of the score, on a rational [rangePercent]. *)
Definition band (r : Q) : Q :=
  if Qltb r 7.5 then 5
  else if Qltb r 15 then (15 - r) / 7.5 + 4
  else if Qltb r 30 then (30 - r) / 15 + 3
  else if Qltb r 60 then (60 - r) / 30 + 2
  else if Qltb r 120 then (120 - r) / 60 + 1
  else 1.

(** The fill of segment [i] for a score: full below the integer part of
    the score, the fraction at it, empty above. *)
Definition fill (score : Q) (i : Z) : Q :=
  if (i <? Qfloor score)%Z then 100
  else if (i =? Qfloor score)%Z then (score - inject_Z (Qfloor score)) * 100
  else 0.

(** The range as the specification words it: the lower percent is
    subtracted as soon as [priceLower > currentPrice]. *)
Definition rangePercent_by_lower_alone (priceUpper priceLower price : number)
  : number :=
  if (priceLower >? price)%js
  then (PresetRanges.upperPercent price priceUpper
        - PresetRanges.lowerPercent price priceLower)%js
  else (PresetRanges.upperPercent price priceUpper
        + PresetRanges.lowerPercent price priceLower)%js.

End Spec.

(* ================================================================= *)
(** ** What the component [PresetRanges] renders *)

Module PresetRangesView.

Import JS Completion PresetRanges.

(** The class of the button of [range]:
    [activePreset === range.type ? 'active-preset' : '']. *)
Definition className (activePreset : option Presets) (range : Range)
  : string :=
  match activePreset with
  | Some p => if Presets_eqb p (type range) then "active-preset" else ""
  | None => ""
  end.

(** The guard of the risk and profit rows:
    [_risk && !mintInfo.invalidRange && !isStablecoinPair], for the [_risk]
    of the three price props.  An array is truthy, [undefined] is not; a
    memo that throws renders nothing. *)
Definition riskInfoShown (priceUpper priceLower price : option string)
  (invalidRange isStablecoinPair : bool) : bool :=
  match _risk (risk priceUpper priceLower price) with
  | Normal (Some _) => negb invalidRange && negb isStablecoinPair
  | Normal None => false
  | Throw => false
  end.

(** The string prop [s] reads as the positive rational [q]. *)
Definition positive_price (s : option string) (q : Q) : Prop :=
  finite_value (to_number s) q /\ 0 < q.

(** The width of a range relative to the price, in percent:
    [100 * price * (1 / priceLower - 1 / priceUpper)]. *)
Definition relativeWidth (priceUpper priceLower price : Q) : Q :=
  100 * price * (1 / priceLower - 1 / priceUpper).

End PresetRangesView.

(* ================================================================= *)
(** ** The component [AddLiquidityButton]: the direction of the display *)

Module AddLiquidityButton.

Import JS.

Section Direction.

(** The wrapped tokens of the SDK, with [sortsBefore] and [equals]. *)
Variable Token : Type.
Variable sortsBefore : Token -> Token -> bool.
Variable equals : Token -> Token -> bool.

(** A value that is a boolean or [undefined]. *)
Definition truthy (v : option bool) : bool :=
  match v with
  | Some b => b
  | None => false
  end.

(** [baseWrapped && quoteWrapped && baseWrapped.sortsBefore(quoteWrapped)] *)
Definition isSorted (baseWrapped quoteWrapped : option Token) : option bool :=
  match baseWrapped, quoteWrapped with
  | Some b, Some q => Some (sortsBefore b q)
  | _, _ => None
  end.

(** [isSorted ? quoteWrapped && base?.equals(quoteWrapped)
             : baseWrapped && base?.equals(baseWrapped)], where [base] is
    the token the hook returned. *)
Definition inverted (baseWrapped quoteWrapped base : option Token)
  : option bool :=
  if truthy (isSorted baseWrapped quoteWrapped)
  then match quoteWrapped, base with
       | Some q, Some x => Some (equals x q)
       | _, _ => None
       end
  else match baseWrapped, base with
       | Some b, Some x => Some (equals x b)
       | _, _ => None
       end.

(** [inverted ? baseCurrency : quoteCurrency] and
    [inverted ? quoteCurrency : baseCurrency] *)
Definition currencyQuote {Currency : Type} (inverted : option bool)
  (baseCurrency quoteCurrency : Currency) : Currency :=
  if truthy inverted then baseCurrency else quoteCurrency.

Definition currencyBase {Currency : Type} (inverted : option bool)
  (baseCurrency quoteCurrency : Currency) : Currency :=
  if truthy inverted then quoteCurrency else baseCurrency.

(** [(isSorted && inverted) || (!isSorted && !inverted)]: the price is
    shown inverted. *)
Definition priceInverted (isSorted inverted : option bool) : bool :=
  (truthy isSorted && truthy inverted)
  || (negb (truthy isSorted) && negb (truthy inverted)).

(** The price of the SDK, with [invert] and [toSignificant(5)], and
    [parseFloat]. *)
Variable Price : Type.
Variable invert : Price -> Price.
Variable toSignificant5 : Price -> string.
Variable parseFloat : string -> number.

(** [_price] of the [currentPrice] memo. *)
Definition _price (price : Price) (isSorted inverted : option bool)
  : number :=
  if priceInverted isSorted inverted
  then parseFloat (toSignificant5 (invert price))
  else parseFloat (toSignificant5 price).

(** The [currentPrice] memo: [undefined], the text [< 0.0001] or a
    number. *)
Definition currentPrice (price : option Price)
  (isSorted inverted : option bool) : option (string + number) :=
  match price with
  | None => None
  | Some pr =>
      let _price := _price pr isSorted inverted in
      if le _price (Fin 0.0001) then Some (inl "< 0.0001"%string)
      else Some (inr _price)
  end.

(** The guard [currentPrice && ...] of the box of the current price: a
    non-empty string is truthy, a number is unless it is a zero or NaN. *)
Definition currentPriceShown (currentPrice : option (string + number))
  : bool :=
  match currentPrice with
  | None => false
  | Some (inl text) => negb (String.eqb text ""%string)
  | Some (inr n) =>
      match n with
      | NaN => false
      | _ => negb (is_zero n)
      end
  end.

End Direction.

End AddLiquidityButton.

(* ================================================================= *)
(** ** Facts on numbers *)

Module NumberFacts.

Import JS.

(** The boolean comparisons of rationals decide the order. *)
Lemma Qltb_true x y : Qltb x y = true <-> x < y.
Proof.
  unfold Qltb. rewrite Qlt_alt. destruct (x ?= y); split; congruence.
Qed.

Lemma Qltb_false x y : Qltb x y = false <-> y <= x.
Proof.
  unfold Qltb. rewrite Qle_alt, <- (Qcompare_antisym x y).
  destruct (x ?= y); simpl; split; congruence.
Qed.

Lemma Qeqb_true x y : Qeqb x y = true <-> x == y.
Proof.
  unfold Qeqb. rewrite Qeq_alt. destruct (x ?= y); split; congruence.
Qed.

Lemma Qeqb_false x y : Qeqb x y = false <-> ~ x == y.
Proof.
  rewrite <- Qeqb_true. destruct (Qeqb x y); split; congruence.
Qed.

(** [same] is an equivalence. *)
Lemma same_refl x : same x x.
Proof. destruct x; simpl; auto. reflexivity. Qed.

Lemma same_sym x y : same x y -> same y x.
Proof. destruct x, y; simpl; auto. intros ->. reflexivity. Qed.

Lemma same_trans x y z : same x y -> same y z -> same x z.
Proof.
  destruct x, y, z; simpl; try tauto; try congruence.
  intros -> ->. reflexivity.
Qed.

(** Case analysis on a comparison of rationals. *)
Ltac cases_Q :=
  repeat match goal with
  | |- context [Qltb ?x ?y] =>
      let H := fresh "H" in
      destruct (Qltb x y) eqn:H;
      [apply Qltb_true in H | apply Qltb_false in H]
  | |- context [Qeqb ?x ?y] =>
      let H := fresh "H" in
      destruct (Qeqb x y) eqn:H;
      [apply Qeqb_true in H | apply Qeqb_false in H]
  end.

Ltac no_div :=
  unfold Qdiv in *;
  change (/ 7.5) with (10 # 75) in *;
  change (/ 15) with (1 # 15) in *;
  change (/ 30) with (1 # 30) in *;
  change (/ 60) with (1 # 60) in *.

(** The arithmetic of finite numbers is the arithmetic of their values. *)
Lemma finite_value_value x q : finite_value x q -> value x == q.
Proof. destruct x; simpl; tauto. Qed.

Lemma finite_value_Fin q : finite_value (Fin q) q.
Proof. simpl. reflexivity. Qed.

Lemma finite_value_eq x p q : finite_value x p -> p == q -> finite_value x q.
Proof. destruct x; simpl; try tauto; intros -> ->; reflexivity. Qed.

Lemma Qltb_compat p p' q q' : p == p' -> q == q' -> Qltb p q = Qltb p' q'.
Proof. intros Hp Hq. unfold Qltb. rewrite Hp, Hq. reflexivity. Qed.

Lemma Qeqb_compat p p' q q' : p == p' -> q == q' -> Qeqb p q = Qeqb p' q'.
Proof. intros Hp Hq. unfold Qeqb. rewrite Hp, Hq. reflexivity. Qed.

Lemma fv_zero s : finite_value (zero s) 0.
Proof. destruct s; simpl; reflexivity. Qed.

Lemma fv_signed s q : finite_value (signed s q) q.
Proof.
  unfold signed. destruct (Qeqb q 0) eqn:E.
  - apply Qeqb_true in E. apply finite_value_eq with 0; [apply fv_zero|].
    symmetry; exact E.
  - apply finite_value_Fin.
Qed.

Lemma fv_add x y p q :
  finite_value x p -> finite_value y q -> finite_value (x + y)%js (p + q).
Proof.
  destruct x, y; simpl; try tauto; intros Hp Hq; rewrite <- Hp, <- Hq;
    reflexivity.
Qed.

Lemma fv_neg x p : finite_value x p -> finite_value (neg x) (- p).
Proof.
  destruct x; simpl; try tauto; intros Hp.
  - destruct (Qeqb q 0) eqn:E; simpl.
    + apply Qeqb_true in E. rewrite <- Hp, E. reflexivity.
    + rewrite Hp. reflexivity.
  - rewrite <- Hp. reflexivity.
Qed.

Lemma fv_sub x y p q :
  finite_value x p -> finite_value y q -> finite_value (x - y)%js (p - q).
Proof. intros Hp Hq. unfold sub. apply fv_add; [|apply fv_neg]; assumption. Qed.

Lemma fv_is_zero x p : finite_value x p -> is_zero x = Qeqb p 0.
Proof.
  destruct x; simpl; try tauto; intros Hp.
  - apply Qeqb_compat; [exact Hp | reflexivity].
  - symmetry. apply Qeqb_true. symmetry; exact Hp.
Qed.

Lemma fv_mul x y p q :
  finite_value x p -> finite_value y q -> finite_value (x * y)%js (p * q).
Proof.
  intros Hp Hq.
  assert (E : (x * y)%js = signed (xorb (signbit x) (signbit y))
                                  (value x * value y))
    by (destruct x, y; simpl in *; tauto).
  rewrite E. eapply finite_value_eq; [apply fv_signed|].
  rewrite (finite_value_value _ _ Hp), (finite_value_value _ _ Hq).
  reflexivity.
Qed.

Lemma fv_div x y p q :
  finite_value x p -> finite_value y q -> ~ q == 0 ->
  finite_value (x / y)%js (p / q).
Proof.
  intros Hp Hq Hnz.
  assert (Z : is_zero y = false)
    by (rewrite (fv_is_zero _ _ Hq); apply Qeqb_false; exact Hnz).
  assert (E : (x / y)%js = signed (xorb (signbit x) (signbit y))
                                  (value x / value y))
    by (destruct x, y; simpl in *; try tauto; try rewrite Z; try reflexivity;
        discriminate).
  rewrite E. eapply finite_value_eq; [apply fv_signed|].
  rewrite (finite_value_value _ _ Hp), (finite_value_value _ _ Hq).
  reflexivity.
Qed.

Lemma fv_abs x p : finite_value x p -> finite_value (abs x) (Qabs p).
Proof.
  destruct x; simpl; try tauto; intros Hp; rewrite <- Hp; reflexivity.
Qed.

Lemma fv_lt x y p q :
  finite_value x p -> finite_value y q -> (x <? y)%js = Qltb p q.
Proof.
  intros Hp Hq.
  assert (E : (x <? y)%js = Qltb (value x) (value y))
    by (destruct x, y; simpl in *; tauto).
  rewrite E. apply Qltb_compat; apply finite_value_value; assumption.
Qed.

Lemma fv_strict_eq x y p q :
  finite_value x p -> finite_value y q -> (x === y)%js = Qeqb p q.
Proof.
  intros Hp Hq.
  assert (E : (x === y)%js = Qeqb (value x) (value y))
    by (destruct x, y; simpl in *; tauto).
  rewrite E. apply Qeqb_compat; apply finite_value_value; assumption.
Qed.

Lemma fv_le x y p q :
  finite_value x p -> finite_value y q -> (le x y = true <-> p <= q).
Proof.
  intros Hp Hq. unfold le.
  rewrite (fv_lt _ _ _ _ Hp Hq), (fv_strict_eq _ _ _ _ Hp Hq).
  rewrite orb_true_iff, Qltb_true, Qeqb_true. split.
  - intros [H | H]; [apply Qlt_le_weak; exact H | rewrite H; apply Qle_refl].
  - intros H. apply Qle_lt_or_eq in H. exact H.
Qed.

(** A number is NaN, an infinity or finite. *)
Lemma number_cases x :
  x = NaN \/ (exists s, x = Inf s) \/ exists q, finite_value x q.
Proof.
  destruct x; eauto.
  - right; right; exists q; apply finite_value_Fin.
  - right; right; exists 0; simpl; reflexivity.
Qed.

Lemma fv_same x q : finite_value x q -> ~ q == 0 -> same x (Fin q).
Proof.
  destruct x; simpl; try tauto. intros H N. apply N. symmetry; exact H.
Qed.

Lemma same_Fin_eq x p q : same x (Fin p) -> p == q -> same x (Fin q).
Proof. destruct x; simpl; try tauto. intros -> ->. reflexivity. Qed.

Lemma Qltb_inject_Z i n : Qltb (inject_Z i) (inject_Z n) = (i <? n)%Z.
Proof.
  destruct (i <? n)%Z eqn:E.
  - apply Qltb_true. rewrite <- Zlt_Qlt. apply Z.ltb_lt; exact E.
  - apply Qltb_false. rewrite <- Zle_Qle. apply Z.ltb_ge; exact E.
Qed.

Lemma Qeqb_inject_Z i n : Qeqb (inject_Z i) (inject_Z n) = (i =? n)%Z.
Proof.
  destruct (i =? n)%Z eqn:E.
  - apply Qeqb_true. apply Z.eqb_eq in E. rewrite E. reflexivity.
  - apply Qeqb_false. intros H. apply Z.eqb_neq in E. apply E.
    apply inject_Z_injective. exact H.
Qed.

Lemma Qabs_pos_eq q : 0 < q -> Qabs q = q.
Proof.
  destruct q as [[|n|n] d]; unfold Qlt; simpl; intros H; try lia; reflexivity.
Qed.

(** A number between two finite marks is finite. *)
Lemma in_band x lo hi :
  le (Fin lo) x = true -> le x (Fin hi) = true ->
  exists q, finite_value x q /\ lo <= q <= hi.
Proof.
  intros Hlo Hhi.
  destruct (number_cases x) as [-> | [[[] ->] | [q Hq]]]; try discriminate.
  exists q. split; [exact Hq|]. split.
  - apply (fv_le _ _ _ _ (finite_value_Fin lo) Hq); exact Hlo.
  - apply (fv_le _ _ _ _ Hq (finite_value_Fin hi)); exact Hhi.
Qed.

Lemma between_finite r lo hi :
  ge r (Fin lo) = true -> (r <? Fin hi)%js = true ->
  exists q, finite_value r q /\ lo <= q < hi.
Proof.
  intros Hlo Hhi.
  destruct (number_cases r) as [-> | [[[] ->] | [q Hq]]]; try discriminate.
  exists q. split; [exact Hq|]. split.
  - apply (fv_le _ _ _ _ (finite_value_Fin lo) Hq); exact Hlo.
  - rewrite (fv_lt _ _ _ _ Hq (finite_value_Fin hi)) in Hhi.
    apply Qltb_true; exact Hhi.
Qed.

(** The reciprocal of a positive number, taken twice. *)
Lemma reciprocal_Fin q :
  0 < q -> (Fin 1 / Fin q)%js = Fin (1 / q).
Proof.
  intros Hq. unfold div. cbn [is_zero signbit value].
  assert (E0 : Qeqb q 0 = false) by (apply Qeqb_false; lra).
  assert (E1 : Qeqb (1 / q) 0 = false).
  { apply Qeqb_false. intros H.
    assert (Hm : (1 / q) * q == 1) by (field; lra).
    rewrite H in Hm. lra. }
  unfold signed. rewrite E0, E1. reflexivity.
Qed.

Lemma reciprocal_twice x :
  (Fin 0 <? x)%js = true -> same (Fin 1 / (Fin 1 / x))%js x.
Proof.
  intros H. destruct x as [q | | [] |]; try discriminate H.
  - apply Qltb_true in H.
    assert (Hi : 0 < 1 / q).
    { unfold Qdiv. rewrite Qmult_1_l. apply Qinv_lt_0_compat. exact H. }
    rewrite (reciprocal_Fin q H), (reciprocal_Fin _ Hi).
    simpl. unfold Qdiv. rewrite !Qmult_1_l. apply Qinv_involutive.
  - reflexivity.
Qed.

(** A number that is not NaN is below a finite mark or at least the mark. *)
Lemma lt_or_ge r c :
  r <> NaN -> (r <? Fin c)%js = true \/ ge r (Fin c) = true.
Proof.
  intros Hn.
  destruct (number_cases r) as [-> | [[[] ->] | [q Hq]]];
    [contradiction | left; reflexivity | right; reflexivity |].
  rewrite (fv_lt _ _ _ _ Hq (finite_value_Fin c)).
  destruct (Qltb q c) eqn:E; [left; reflexivity | right].
  apply Qltb_false in E.
  apply (fv_le _ _ _ _ (finite_value_Fin c) Hq). exact E.
Qed.

End NumberFacts.

(* ================================================================= *)
(** ** The score over the bands *)

Module RiskFacts.

Import JS PresetRanges NumberFacts.

(** The bands on the rationals: bounds, slope and the value in each band. *)
Lemma band_bounds r : 1 <= Spec.band r <= 5.
Proof.
  unfold Spec.band. cases_Q; no_div; lra.
Qed.

Lemma band_antitone r1 r2 :
  r1 <= r2 ->
  0 <= Spec.band r1 - Spec.band r2 <= (2 # 15) * (r2 - r1).
Proof.
  intros Hle. unfold Spec.band. cases_Q; no_div; lra.
Qed.

(** On a finite range [riskBand] computes the bands. *)
Lemma riskBand_finite r q :
  finite_value r q -> finite_value (riskBand r) (Spec.band q).
Proof.
  intros Hr. unfold riskBand, Spec.band.
  rewrite !(fv_lt r _ q _ Hr (finite_value_Fin _)).
  assert (N75 : ~ 7.5 == 0) by (intro; discriminate).
  assert (N15 : ~ 15 == 0) by (intro; discriminate).
  assert (N30 : ~ 30 == 0) by (intro; discriminate).
  assert (N60 : ~ 60 == 0) by (intro; discriminate).
  repeat match goal with
         | |- context [if Qltb ?a ?b then _ else _] => destruct (Qltb a b)
         end;
    repeat first [ apply finite_value_Fin | apply fv_sub | apply fv_add
                 | apply fv_div | assumption ].
Qed.

Lemma riskBand_range r :
  le (Fin 1) (riskBand r) = true /\ le (riskBand r) (Fin 5) = true.
Proof.
  destruct (number_cases r) as [-> | [[[] ->] | [q Hq]]];
    try (split; reflexivity).
  pose proof (riskBand_finite r q Hq) as Hb.
  pose proof (band_bounds q) as [H1 H5].
  split.
  - apply (fv_le _ _ _ _ (finite_value_Fin 1) Hb); exact H1.
  - apply (fv_le _ _ _ _ Hb (finite_value_Fin 5)); exact H5.
Qed.

Lemma band_cases q :
  (q < 7.5 -> Spec.band q == 5) /\
  (7.5 <= q < 15 -> Spec.band q == (15 - q) / 7.5 + 4) /\
  (15 <= q < 30 -> Spec.band q == (30 - q) / 15 + 3) /\
  (30 <= q < 60 -> Spec.band q == (60 - q) / 30 + 2) /\
  (60 <= q < 120 -> Spec.band q == (120 - q) / 60 + 1) /\
  (120 <= q -> Spec.band q == 1).
Proof.
  unfold Spec.band.
  repeat split; intros H; cases_Q; try reflexivity; exfalso; lra.
Qed.

Lemma riskBand_between r lo hi :
  ge r (Fin lo) = true -> (r <? Fin hi)%js = true ->
  lo <= value r < hi /\ same (riskBand r) (Fin (Spec.band (value r))).
Proof.
  intros Hlo Hhi.
  destruct (between_finite r lo hi Hlo Hhi) as [q [Hq Hb]].
  pose proof (finite_value_value _ _ Hq) as Hv.
  assert (Hr : finite_value r (value r))
    by (eapply finite_value_eq; [exact Hq | symmetry; exact Hv]).
  split; [lra|].
  apply fv_same; [apply riskBand_finite; exact Hr|].
  pose proof (band_bounds (value r)). lra.
Qed.

(** [risk] on present inputs. *)
Lemma risk_defined priceUpper priceLower price score :
  risk priceUpper priceLower price = Some score ->
  score = riskBand (rangePercent (to_number priceUpper)
                                 (to_number priceLower) (to_number price)).
Proof.
  unfold risk.
  destruct (falsy priceUpper || falsy priceLower || falsy price);
    congruence.
Qed.

Lemma risk_truthy priceUpper priceLower price :
  falsy priceUpper = false -> falsy priceLower = false ->
  falsy price = false ->
  risk priceUpper priceLower price
  = Some (riskBand (rangePercent (to_number priceUpper)
                                 (to_number priceLower) (to_number price))).
Proof. intros Hu Hl Hp. unfold risk. rewrite Hu, Hl, Hp. reflexivity. Qed.

(** The two percents on finite prices. *)
Lemma upperPercent_finite p u :
  ~ u == 0 ->
  finite_value (upperPercent (Fin p) (Fin u)) (100 - (p / u) * 100).
Proof.
  intros Hu. unfold upperPercent.
  apply fv_sub; [apply finite_value_Fin|].
  apply fv_mul; [|apply finite_value_Fin].
  apply fv_div; [apply finite_value_Fin | apply finite_value_Fin | exact Hu].
Qed.

Lemma lowerPercent_finite p l :
  ~ l == 0 ->
  finite_value (lowerPercent (Fin p) (Fin l)) (Qabs (100 - (p / l) * 100)).
Proof.
  intros Hl. unfold lowerPercent. apply fv_abs.
  apply (upperPercent_finite p l Hl).
Qed.

End RiskFacts.

(* ================================================================= *)
(** ** The segments of the indicator *)

Module SegmentFacts.

Import JS Completion PresetRanges NumberToString NumberFacts.

(** The loop of [_risk] pushes one segment per iteration and never throws. *)
Lemma _risk_Some x :
  _risk (Some x)
  = Normal (Some (map (segment (toString x)) [0; 1; 2; 3; 4]%Z)).
Proof.
  unfold _risk. cbn [option_map]. generalize (toString x) as s. intros s.
  match goal with |- context [for_loop 5 0%Z ?b _] => set (body := b) end.
  assert (Hb : forall i res, body i res = Normal (push res (segment s i))).
  { intros i res. unfold body, segment. cbn [read bind].
    destruct (_ <? _)%js; [reflexivity|].
    destruct (_ === _)%js; reflexivity. }
  cbn [for_loop]. repeat (rewrite Hb; cbn [bind]). reflexivity.
Qed.

Lemma _risk_normal r : exists out, _risk r = Normal out.
Proof.
  destruct r as [x|].
  - eexists. apply _risk_Some.
  - exists None. reflexivity.
Qed.

(** A score between 1 and 5 is printed in decimal notation. *)
Lemma toString_plain q :
  1 <= q <= 5 ->
  toString (Fin q)
  = NumDecimal false (Qfloor q)
      (if is_integer q then None else Some (q - inject_Z (Qfloor q))) None.
Proof.
  intros [H1 H5]. unfold toString.
  assert (E0 : Qeqb q 0 = false) by (apply Qeqb_false; lra).
  assert (En : Qltb q 0 = false) by (apply Qltb_false; lra).
  rewrite E0, En, Qabs_pos_eq by lra.
  assert (Ea : Qltb q (1 # 1000000) = false) by (apply Qltb_false; lra).
  assert (Eb : Qltb q (10 ^ 21) = true).
  { apply Qltb_true. apply Qle_lt_trans with 5; [exact H5 | reflexivity]. }
  rewrite Ea, Eb. reflexivity.
Qed.

(** The segments of a score printed in decimal notation. *)
Lemma segment_plain q i :
  1 <= q ->
  same (segment (NumDecimal false (Qfloor q)
                   (if is_integer q then None
                    else Some (q - inject_Z (Qfloor q))) None) i)
       (Fin (Spec.fill q i)).
Proof.
  intros H1.
  assert (Hn : (1 <= Qfloor q)%Z).
  { change 1%Z with (Qfloor 1). apply Qfloor_resp_le. exact H1. }
  assert (Hone : inject_Z (Qfloor q) * 10 ^ 0 == inject_Z (Qfloor q))
    by (change (10 ^ 0) with 1; ring).
  assert (S0 : forall f,
             split_0 (NumDecimal false (Qfloor q) f None)
             = Fin (inject_Z (Qfloor q) * 10 ^ 0)).
  { intros f. unfold split_0.
    replace (match f with Some _ => 0%Z | None => 0%Z end) with 0%Z
      by (destruct f; reflexivity).
    assert (E : Qeqb (inject_Z (Qfloor q) * 10 ^ 0) 0 = false).
    { apply Qeqb_false. rewrite Hone. intros H.
      apply (inject_Z_injective (Qfloor q) 0) in H. lia. }
    rewrite E. reflexivity. }
  unfold segment, Spec.fill. rewrite S0.
  cbn [lt strict_eq value].
  rewrite (Qltb_compat _ (inject_Z i) _ (inject_Z (Qfloor q)))
    by (try reflexivity; exact Hone).
  rewrite (Qeqb_compat _ (inject_Z i) _ (inject_Z (Qfloor q)))
    by (try reflexivity; exact Hone).
  rewrite Qltb_inject_Z, Qeqb_inject_Z.
  destruct (i <? Qfloor q)%Z; [reflexivity|].
  destruct (i =? Qfloor q)%Z; [|reflexivity].
  destruct (is_integer q) eqn:Ei; unfold split_1.
  - apply Qeqb_true in Ei. simpl. rewrite <- Ei at 1. ring.
  - apply Qeqb_false in Ei.
    pose proof (Qfloor_le q) as Hf.
    apply fv_same.
    + eapply finite_value_eq;
        [apply fv_mul; apply finite_value_Fin|].
      change (10 ^ 0) with 1. ring.
    + intros H. apply Ei.
      assert (q - inject_Z (Qfloor q) == 0) by lra. lra.
Qed.

End SegmentFacts.

(* ================================================================= *)
(** ** The properties of the specification *)

Import JS Completion PresetRanges NumberToString.
Import NumberFacts RiskFacts SegmentFacts.

Local Open Scope string_scope.
Local Open Scope list_scope.

(** On prices that are finite and not negative the test [+priceUpper > 0]
    changes nothing: the range is the one obtained by looking at
    [priceLower > price] alone. *)
Lemma upper_guard_immaterial_on_nonnegative_prices (u l p : Q) :
  0 <= u -> 0 <= l -> 0 <= p ->
  same (rangePercent (Fin u) (Fin l) (Fin p))
       (Spec.rangePercent_by_lower_alone (Fin u) (Fin l) (Fin p)).
Proof.
  intros Hu Hl Hp.
  unfold rangePercent, Spec.rangePercent_by_lower_alone.
  destruct (Fin l >? Fin p)%js eqn:Elp; cbn [andb]; [|apply same_refl].
  destruct (Fin u >? Fin 0)%js eqn:Eu; [apply same_refl|].
  unfold gt in Elp, Eu. cbn [lt value] in Elp, Eu.
  apply Qltb_true in Elp. apply Qltb_false in Eu.
  assert (Zu : Qeqb u 0 = true) by (apply Qeqb_true; lra).
  assert (Su : Qltb u 0 = false) by (apply Qltb_false; lra).
  assert (Sp : Qltb p 0 = false) by (apply Qltb_false; lra).
  assert (Nl : ~ l == 0) by lra.
  pose proof (lowerPercent_finite p l Nl) as Hlow.
  assert (Eup : upperPercent (Fin p) (Fin u)
                = if Qeqb p 0 then NaN else Inf true).
  { unfold upperPercent, div. cbn [is_zero signbit]. rewrite Zu, Su, Sp.
    destruct (Qeqb p 0); reflexivity. }
  rewrite Eup.
  destruct (Qeqb p 0); destruct (lowerPercent (Fin p) (Fin l)) as [q | | |];
    simpl in Hlow; try tauto; try reflexivity.
  unfold sub, neg. destruct (Qeqb q 0); reflexivity.
Qed.

(** C1: for every input triple for which the score is defined, [risk] maps
    [rangePercent] through the fixed bands: below 7.5 the score is 5; in
    [7.5,15) it is (15 - r)/7.5 + 4; in [15,30) it is (30 - r)/15 + 3; in
    [30,60) it is (60 - r)/30 + 2; in [60,120) it is (120 - r)/60 + 1; from
    120 on it is 1; a range that is a number is in one of the bands.  For
    priceLower 0.9, priceUpper 1.2 and price 1.0 the range is 250/9, in the
    band [15,30), and the score is 3 + 4/27. *)
Theorem risk_maps_range_through_bands :
  (forall (priceUpper priceLower price : option string) (score : number),
      risk priceUpper priceLower price = Some score ->
      let r := rangePercent (to_number priceUpper) (to_number priceLower)
                            (to_number price) in
      ((r <? Fin 7.5)%js = true -> score = Fin 5) /\
      (ge r (Fin 7.5) = true -> (r <? Fin 15)%js = true ->
       same score (Fin ((15 - value r) / 7.5 + 4))) /\
      (ge r (Fin 15) = true -> (r <? Fin 30)%js = true ->
       same score (Fin ((30 - value r) / 15 + 3))) /\
      (ge r (Fin 30) = true -> (r <? Fin 60)%js = true ->
       same score (Fin ((60 - value r) / 30 + 2))) /\
      (ge r (Fin 60) = true -> (r <? Fin 120)%js = true ->
       same score (Fin ((120 - value r) / 60 + 1))) /\
      (ge r (Fin 120) = true -> score = Fin 1) /\
      (r <> NaN ->
       (r <? Fin 7.5)%js = true \/
       (ge r (Fin 7.5) = true /\ (r <? Fin 15)%js = true) \/
       (ge r (Fin 15) = true /\ (r <? Fin 30)%js = true) \/
       (ge r (Fin 30) = true /\ (r <? Fin 60)%js = true) \/
       (ge r (Fin 60) = true /\ (r <? Fin 120)%js = true) \/
       ge r (Fin 120) = true))
  /\ (let r := rangePercent (to_number (Some "1.2")) (to_number (Some "0.9"))
                            (to_number (Some "1.0")) in
      same r (Fin (250 # 9)) /\
      ge r (Fin 15) = true /\ (r <? Fin 30)%js = true /\
      exists score,
        risk (Some "1.2") (Some "0.9") (Some "1.0") = Some score /\
        same score (Fin (3 + (4 # 27)))).
Proof.
  split.
  - intros priceUpper priceLower price score Hs r.
    apply risk_defined in Hs. fold r in Hs. subst score. clearbody r.
    assert (Hband : forall lo hi,
               ge r (Fin lo) = true -> (r <? Fin hi)%js = true ->
               forall f, (lo <= value r < hi -> Spec.band (value r) == f) ->
               same (riskBand r) (Fin f)).
    { intros lo hi Hlo Hhi f Hf.
      destruct (riskBand_between r _ _ Hlo Hhi) as [Hb Hsame].
      eapply same_Fin_eq; [exact Hsame | apply Hf; exact Hb]. }
    repeat split.
    + intros H. unfold riskBand. rewrite H. reflexivity.
    + intros Hlo Hhi. apply (Hband _ _ Hlo Hhi). apply band_cases.
    + intros Hlo Hhi. apply (Hband _ _ Hlo Hhi). apply band_cases.
    + intros Hlo Hhi. apply (Hband _ _ Hlo Hhi). apply band_cases.
    + intros Hlo Hhi. apply (Hband _ _ Hlo Hhi). apply band_cases.
    + intros Hlo.
      destruct (number_cases r) as [-> | [[[] ->] | [q Hq]]];
        try discriminate; try reflexivity.
      apply (fv_le _ _ _ _ (finite_value_Fin _) Hq) in Hlo.
      unfold riskBand.
      rewrite !(fv_lt r _ q _ Hq (finite_value_Fin _)).
      repeat match goal with
             | |- context [Qltb ?a ?b] =>
                 replace (Qltb a b) with false
                   by (symmetry; apply Qltb_false; lra)
             end.
      reflexivity.
    + intros Hn.
      destruct (lt_or_ge r 7.5 Hn) as [H | H1]; [tauto|].
      destruct (lt_or_ge r 15 Hn) as [H | H2]; [tauto|].
      destruct (lt_or_ge r 30 Hn) as [H | H3]; [tauto|].
      destruct (lt_or_ge r 60 Hn) as [H | H4]; [tauto|].
      destruct (lt_or_ge r 120 Hn) as [H | H5]; tauto.
  - vm_compute. repeat split. eexists. split; reflexivity.
Qed.

Lemma risk_maps_range_through_bands_witness :
  same (riskBand (rangePercent (to_number (Some "1.2"))
                    (to_number (Some "0.9")) (to_number (Some "1.0"))))
       (Fin ((30 - (250 # 9)) / 15 + 3)).
Proof.
  refine (same_Fin_eq _ _ _
            (proj1 (proj2 (proj2
               (proj1 risk_maps_range_through_bands
                  (Some "1.2") (Some "0.9") (Some "1.0") _ eq_refl)))
               eq_refl eq_refl) _).
  vm_compute. reflexivity.
Defined.

(** C2 as stated does not hold: with priceLower 2 above the price 1 and the
    negative priceUpper -4 the lower percent (50) is added to the upper
    percent (125), the range is 175 and the score 1; subtracting as soon as
    [priceLower > price] would give the range 75 and the score 1.75. *)
Lemma subtraction_needs_positive_upper :
  let priceUpper := to_number (Some "-4") in
  let priceLower := to_number (Some "2") in
  let price := to_number (Some "1") in
  (priceLower >? price)%js = true /\
  same (upperPercent price priceUpper) (Fin 125) /\
  same (lowerPercent price priceLower) (Fin 50) /\
  same (rangePercent priceUpper priceLower price) (Fin 175) /\
  same (Spec.rangePercent_by_lower_alone priceUpper priceLower price)
       (Fin 75) /\
  ~ same (rangePercent priceUpper priceLower price)
         (upperPercent price priceUpper - lowerPercent price priceLower)%js /\
  risk (Some "-4") (Some "2") (Some "1") = Some (Fin 1) /\
  same (riskBand (Spec.rangePercent_by_lower_alone priceUpper priceLower price))
       (Fin 1.75).
Proof.
  vm_compute. repeat split. intros H; discriminate H.
Qed.

(** C2, amended: for every input triple for which the score is defined,
    [risk] computes upperPercent = 100 - (price / priceUpper) * 100 and
    lowerPercent = |100 - (price / priceLower) * 100|, and takes
    rangePercent = upperPercent - lowerPercent exactly when
    priceLower > price and priceUpper > 0; in every other case
    rangePercent = upperPercent + lowerPercent.  On finite prices with
    non-zero bounds the two percents are the rational values of these
    formulas. *)
Theorem rangePercent_branches :
  forall priceUpper priceLower price : option string,
    falsy priceUpper = false -> falsy priceLower = false ->
    falsy price = false ->
    let U := to_number priceUpper in
    let L := to_number priceLower in
    let P := to_number price in
    let upper := (Fin 100 - (P / U) * Fin 100)%js in
    let lower := abs (Fin 100 - (P / L) * Fin 100)%js in
    risk priceUpper priceLower price = Some (riskBand (rangePercent U L P)) /\
    upperPercent P U = upper /\
    lowerPercent P L = lower /\
    ((L >? P)%js = true /\ (U >? Fin 0)%js = true ->
     rangePercent U L P = (upper - lower)%js) /\
    ((L >? P)%js = false \/ (U >? Fin 0)%js = false ->
     rangePercent U L P = (upper + lower)%js) /\
    (forall p u l : Q,
        P = Fin p -> U = Fin u -> L = Fin l -> ~ u == 0 -> ~ l == 0 ->
        finite_value upper (100 - (p / u) * 100) /\
        finite_value lower (Qabs (100 - (p / l) * 100))).
Proof.
  intros priceUpper priceLower price Hu Hl Hp U L P upper lower.
  split; [apply risk_truthy; assumption|].
  split; [reflexivity|]. split; [reflexivity|].
  unfold rangePercent. fold U L P upper lower.
  split; [|split].
  - intros [-> ->]. reflexivity.
  - intros [-> | ->]; [reflexivity|].
    rewrite andb_false_r. reflexivity.
  - intros p u l -> -> -> Nu Nl. split.
    + apply upperPercent_finite; exact Nu.
    + apply lowerPercent_finite; exact Nl.
Qed.

Lemma rangePercent_branches_witness :
  rangePercent (to_number (Some "1.4")) (to_number (Some "1.25"))
               (to_number (Some "1"))
  = ((Fin 100 - (to_number (Some "1") / to_number (Some "1.4")) * Fin 100)
     - abs (Fin 100
            - (to_number (Some "1") / to_number (Some "1.25")) * Fin 100))%js.
Proof.
  exact (proj1 (proj2 (proj2 (proj2
           (rangePercent_branches (Some "1.4") (Some "1.25") (Some "1")
              eq_refl eq_refl eq_refl))))
           (conj eq_refl eq_refl)).
Defined.

(** C3: for every value of rangePercent, hence for every input triple for
    which the score is defined, the score lies in [1,5]; and the bands
    meet at their boundaries: at 7.5 the formula of [7.5,15) gives 5, the
    value of the branch below 7.5, and at 15, 30, 60 and 120 the formula
    of the band that ends there gives the value of the band that starts
    there.  The score moves by at most 2/15 of the move of the range. *)
Theorem risk_within_1_5_and_continuous :
  (forall r : number,
      le (Fin 1) (riskBand r) = true /\ le (riskBand r) (Fin 5) = true)
  /\ (forall (priceUpper priceLower price : option string) (score : number),
         risk priceUpper priceLower price = Some score ->
         le (Fin 1) score = true /\ le score (Fin 5) = true)
  /\ (same (riskBand (Fin 7.5)) (Fin 5) /\
      same ((Fin 15 - Fin 7.5) / Fin 7.5 + Fin 4)%js (Fin 5))
  /\ (same ((Fin 15 - Fin 15) / Fin 7.5 + Fin 4)%js (riskBand (Fin 15)) /\
      same ((Fin 30 - Fin 15) / Fin 15 + Fin 3)%js (riskBand (Fin 15)))
  /\ (same ((Fin 30 - Fin 30) / Fin 15 + Fin 3)%js (riskBand (Fin 30)) /\
      same ((Fin 60 - Fin 30) / Fin 30 + Fin 2)%js (riskBand (Fin 30)))
  /\ (same ((Fin 60 - Fin 60) / Fin 30 + Fin 2)%js (riskBand (Fin 60)) /\
      same ((Fin 120 - Fin 60) / Fin 60 + Fin 1)%js (riskBand (Fin 60)))
  /\ (same ((Fin 120 - Fin 120) / Fin 60 + Fin 1)%js (riskBand (Fin 120)) /\
      same (riskBand (Fin 120)) (Fin 1))
  /\ (forall q1 q2 : Q,
         Qabs (value (riskBand (Fin q1)) - value (riskBand (Fin q2)))
         <= (2 # 15) * Qabs (q1 - q2)).
Proof.
  split; [exact riskBand_range|].
  split.
  { intros priceUpper priceLower price score Hs.
    apply risk_defined in Hs. subst score. apply riskBand_range. }
  repeat (split; [split; vm_compute; reflexivity|]).
  intros q1 q2.
  rewrite (finite_value_value _ _ (riskBand_finite _ _ (finite_value_Fin q1))).
  rewrite (finite_value_value _ _ (riskBand_finite _ _ (finite_value_Fin q2))).
  destruct (Qlt_le_dec q1 q2) as [H | H].
  - pose proof (band_antitone q1 q2 (Qlt_le_weak _ _ H)) as [Ha Hb].
    rewrite (Qabs_pos _ Ha).
    rewrite (Qabs_neg (q1 - q2)) by lra. lra.
  - pose proof (band_antitone q2 q1 H) as [Ha Hb].
    rewrite (Qabs_neg (Spec.band q1 - Spec.band q2)) by lra.
    rewrite (Qabs_pos (q1 - q2)) by lra. lra.
Qed.

Lemma risk_within_1_5_and_continuous_witness :
  le (Fin 1) (Fin (510000 # 162000)) = true
  /\ le (Fin (510000 # 162000)) (Fin 5) = true.
Proof.
  exact (proj1 (proj2 risk_within_1_5_and_continuous)
           (Some "1.2") (Some "0.9") (Some "1.0") _ eq_refl).
Defined.

(** C4: the score does not increase with rangePercent: for all values
    r1 <= r2 of the range, the score at r1 is greater than or equal to the
    score at r2. *)
Theorem riskBand_non_increasing :
  forall r1 r2 : number,
    le r1 r2 = true -> ge (riskBand r1) (riskBand r2) = true.
Proof.
  intros r1 r2 Hle. unfold ge.
  destruct (number_cases r1) as [-> | [[[] ->] | [q1 H1]]].
  - discriminate.
  - apply riskBand_range.
  - destruct r2 as [ | | [] | ]; try discriminate. reflexivity.
  - destruct (number_cases r2) as [-> | [[[] ->] | [q2 H2]]].
    + destruct r1; discriminate.
    + destruct r1; simpl in *; try tauto; discriminate.
    + apply riskBand_range.
    + apply (fv_le _ _ _ _ (riskBand_finite _ _ H2) (riskBand_finite _ _ H1)).
      apply (fv_le _ _ _ _ H1 H2) in Hle.
      pose proof (band_antitone q1 q2 Hle). lra.
Qed.

Lemma riskBand_non_increasing_witness :
  ge (riskBand (Fin 10)) (riskBand (Fin 27.5)) = true.
Proof. exact (riskBand_non_increasing (Fin 10) (Fin 27.5) eq_refl). Defined.

(** C5: for a stablecoin pair [ranges] is exactly one preset, with the
    bounds [0.984, 1.016], risk VERY_LOW and profit HIGH; otherwise it is
    the four presets FULL, SAFE, NORMAL, RISK in this order, with the
    bounds [0, Infinity), [0.8, 1.4], [0.9, 1.2], [0.95, 1.1] and the tiers
    VERY_LOW/VERY_LOW, LOW/LOW, MEDIUM/MEDIUM, HIGH/HIGH; nothing but the
    titles depends on the translation. *)
Theorem ranges_presets :
  forall t : string -> string,
    ranges t true
    = [ mkRange STABLE (t "stablecoins") (Fin 0.984) (Fin 1.016)
          VERY_LOW HIGH ]
    /\ List.length (ranges t true) = 1%nat
    /\ map type (ranges t false) = [FULL; SAFE; NORMAL; RISK]
    /\ map (fun r => (min r, max r)) (ranges t false)
       = [ (Fin 0, Inf false); (Fin 0.8, Fin 1.4); (Fin 0.9, Fin 1.2);
           (Fin 0.95, Fin 1.1) ]
    /\ map (fun r => (risk_tier r, profit r)) (ranges t false)
       = [ (VERY_LOW, VERY_LOW); (LOW, LOW); (MEDIUM, MEDIUM); (HIGH, HIGH) ]
    /\ (forall t' : string -> string,
           map (fun r => (type r, min r, max r, risk_tier r, profit r))
               (ranges t false)
           = map (fun r => (type r, min r, max r, risk_tier r, profit r))
               (ranges t' false)).
Proof.
  intros t. repeat split; reflexivity.
Qed.

(** C6: for every score in [1,5], [_risk] returns exactly five fills and
    the fill of segment i (0 to 4) is 100 when i is below the integer part
    of the score, the fractional part of the score times 100 when i is the
    integer part, and 0 otherwise.  For the score 3.4 the fills are
    100, 100, 100, 40, 0. *)
Theorem segments_of_score :
  (forall score : number,
      le (Fin 1) score = true -> le score (Fin 5) = true ->
      exists fills,
        _risk (Some score) = Normal (Some fills) /\
        List.length fills = 5%nat /\
        forall i : Z, (0 <= i < 5)%Z ->
          same (nth (Z.to_nat i) fills NaN) (Fin (Spec.fill (value score) i)))
  /\ exists fills,
      _risk (Some (Fin 3.4)) = Normal (Some fills) /\
      Forall2 same fills [Fin 100; Fin 100; Fin 100; Fin 40; Fin 0].
Proof.
  split.
  - intros score H1 H5.
    destruct (in_band _ _ _ H1 H5) as [q [Hq [Hq1 Hq5]]].
    destruct score as [p | | |]; simpl in Hq; try tauto;
      [| exfalso; lra].
    assert (Hp : 1 <= p <= 5) by (rewrite Hq; split; assumption).
    exists (map (segment (toString (Fin p))) [0; 1; 2; 3; 4]%Z).
    split; [apply _risk_Some|]. split; [reflexivity|].
    intros i Hi. rewrite toString_plain by exact Hp. cbn [value].
    assert (Hc : (i = 0 \/ i = 1 \/ i = 2 \/ i = 3 \/ i = 4)%Z) by lia.
    destruct Hc as [-> | [-> | [-> | [-> | ->]]]];
      apply segment_plain; apply Hp.
  - eexists. split; [apply _risk_Some|].
    repeat constructor; vm_compute; reflexivity.
Qed.

Lemma segments_of_score_witness :
  exists fills,
    _risk (Some (Fin 3.4)) = Normal (Some fills) /\
    List.length fills = 5%nat /\
    forall i : Z, (0 <= i < 5)%Z ->
      same (nth (Z.to_nat i) fills NaN) (Fin (Spec.fill 3.4 i)).
Proof.
  exact (proj1 segments_of_score (Fin 3.4) eq_refl eq_refl).
Defined.

(** C7: [risk] returns undefined when one of priceLower, priceUpper and
    price is absent, and [_risk] returns undefined when the score is
    absent: absence goes through, and nothing is computed on an incomplete
    input. *)
Theorem absent_input_gives_no_score :
  forall priceUpper priceLower price : option string,
    priceUpper = None \/ priceLower = None \/ price = None ->
    risk priceUpper priceLower price = None /\
    _risk None = Normal None /\
    _risk (risk priceUpper priceLower price) = Normal None.
Proof.
  intros priceUpper priceLower price H.
  assert (E : risk priceUpper priceLower price = None).
  { unfold risk. destruct H as [-> | [-> | ->]]; simpl.
    - reflexivity.
    - rewrite orb_true_r. reflexivity.
    - rewrite orb_true_r. reflexivity. }
  rewrite E. repeat split; reflexivity.
Qed.

Lemma absent_input_gives_no_score_witness :
  risk (Some "1.2") None (Some "1.0") = None /\
  _risk None = Normal None /\
  _risk (risk (Some "1.2") None (Some "1.0")) = Normal None.
Proof.
  exact (absent_input_gives_no_score (Some "1.2") None (Some "1.0")
           (or_intror (or_introl eq_refl))).
Defined.

(** C8: [risk] and [_risk] are total and never throw: on every score,
    present or not, [_risk] completes normally, and so does the chain of
    the two on every input triple, where the worst case is the absence of
    a score; with priceUpper zero, a division by zero, a score is still
    produced and its fills are computed. *)
Theorem risk_never_throws :
  (forall r : option number,
      exists out : option (list number), _risk r = Normal out)
  /\ (forall priceUpper priceLower price : option string,
         exists out : option (list number),
           _risk (risk priceUpper priceLower price) = Normal out /\
           (out = None <-> risk priceUpper priceLower price = None))
  /\ (forall priceLower price : string,
         priceLower <> "" -> price <> "" ->
         exists score fills,
           risk (Some "0") (Some priceLower) (Some price) = Some score /\
           _risk (Some score) = Normal (Some fills))
  /\ risk (Some "0") (Some "0.9") (Some "1") = Some (Fin 5)
  /\ risk (Some "0") (Some "0") (Some "0") = Some (Fin 1).
Proof.
  split; [exact _risk_normal|]. split; [|split].
  - intros priceUpper priceLower price.
    destruct (risk priceUpper priceLower price) as [score|].
    + eexists. split; [apply _risk_Some|]. split; discriminate.
    + exists None. split; [reflexivity|]. split; reflexivity.
  - intros priceLower price Hl Hp.
    eexists. eexists. split; [|apply _risk_Some].
    apply risk_truthy; [reflexivity | |].
    + destruct priceLower; [contradiction|reflexivity].
    + destruct price; [contradiction|reflexivity].
  - split; reflexivity.
Qed.

Lemma risk_never_throws_witness :
  exists score fills,
    risk (Some "0") (Some "0.9") (Some "1") = Some score /\
    _risk (Some score) = Normal (Some fills).
Proof.
  refine (proj1 (proj2 (proj2 risk_never_throws)) "0.9" "1" _ _);
    discriminate.
Defined.

(** C9: inverting twice gives back the pair of positive prices: one
    inversion swaps and reciprocates the bounds (the new lower bound is
    1/oldUpper, the new upper bound 1/oldLower) and quotes for the other
    token, a second one returns the bounds and the token it started from.
    The pair (0.8, 1.2) inverts to (5/6, 1.25) and back to (0.8, 1.2). *)
Theorem invertPrice_twice :
  (forall (Token : Type) (quote base : Token) (priceLower priceUpper : number),
      (Fin 0 <? priceLower)%js = true -> (Fin 0 <? priceUpper)%js = true ->
      let once := Inverter.invertPrice priceLower priceUpper quote base true in
      let twice := Inverter.invertPrice (Inverter.priceLower once)
                     (Inverter.priceUpper once) base quote true in
      Inverter.priceLower once = (Fin 1 / priceUpper)%js /\
      Inverter.priceUpper once = (Fin 1 / priceLower)%js /\
      Inverter.base once = quote /\
      same (Inverter.priceLower twice) priceLower /\
      same (Inverter.priceUpper twice) priceUpper /\
      Inverter.base twice = base)
  /\ (let once := Inverter.invertPrice (Fin 0.8) (Fin 1.2) tt tt true in
      same (Inverter.priceLower once) (Fin (5 # 6)) /\
      same (Inverter.priceUpper once) (Fin 1.25) /\
      same (Inverter.priceLower
              (Inverter.invertPrice (Inverter.priceLower once)
                 (Inverter.priceUpper once) tt tt true)) (Fin 0.8) /\
      same (Inverter.priceUpper
              (Inverter.invertPrice (Inverter.priceLower once)
                 (Inverter.priceUpper once) tt tt true)) (Fin 1.2)).
Proof.
  split.
  - intros Token quote base priceLower priceUpper Hl Hu once twice.
    repeat split; try reflexivity.
    + apply reciprocal_twice; exact Hl.
    + apply reciprocal_twice; exact Hu.
  - vm_compute. repeat split.
Qed.

Lemma invertPrice_twice_witness :
  same (Inverter.priceLower
          (Inverter.invertPrice
             (Inverter.priceLower
                (Inverter.invertPrice (Fin 0.8) (Fin 1.2) tt tt true))
             (Inverter.priceUpper
                (Inverter.invertPrice (Fin 0.8) (Fin 1.2) tt tt true))
             tt tt true))
       (Fin 0.8).
Proof.
  exact (proj1 (proj2 (proj2 (proj2
           (proj1 invertPrice_twice unit tt tt (Fin 0.8) (Fin 1.2)
              eq_refl eq_refl))))).
Defined.

(** C10: a click on the button of a preset calls the handler first with
    the clicked range, whatever the active preset; then, when the type of
    the range is the active preset, it calls it again with null, and
    otherwise again with the same range.  The last argument is null
    exactly when the clicked preset was the active one. *)
Theorem onClick_calls :
  forall (State : Type)
         (handlePresetRangeSelection : option Range -> State -> State)
         (activePreset : option Presets) (range : Range) (s : State),
    onClick State handlePresetRangeSelection activePreset range s
    = handlePresetRangeSelection
        (if is_active activePreset range then None else Some range)
        (handlePresetRangeSelection (Some range) s)
    /\ onClick (list (option Range)) log_call activePreset range []
       = [Some range; if is_active activePreset range then None
                      else Some range]
    /\ (List.last (onClick (list (option Range)) log_call
                     activePreset range []) (Some range) = None
        <-> activePreset = Some (type range)).
Proof.
  intros State handler activePreset range s.
  assert (Ha : is_active activePreset range = true
               <-> activePreset = Some (type range)).
  { unfold is_active. destruct activePreset as [p|]; [|split; discriminate].
    destruct p, (type range); simpl; split; congruence. }
  unfold onClick, log_call.
  destruct (is_active activePreset range) eqn:E; simpl;
    repeat split; try discriminate; try tauto.
  intros H. apply Ha in H. discriminate.
Qed.

(* ================================================================= *)
(** ** Further properties of the score, the fills and the display *)

Module WidthFacts.

Import JS Completion PresetRanges PresetRangesView NumberFacts RiskFacts.

(** The bands respect the equality of rationals. *)
Lemma band_compat p q : p == q -> Spec.band p == Spec.band q.
Proof.
  intros H. unfold Spec.band.
  rewrite !(Qltb_compat p q _ _ H (Qeq_refl _)).
  repeat match goal with
         | |- context [if Qltb ?a ?b then _ else _] => destruct (Qltb a b)
         end; rewrite ?H; reflexivity.
Qed.

Lemma ratio_lt_1 p l : 0 < l -> p < l -> p / l < 1.
Proof.
  intros Hl H. apply Qlt_shift_div_r; [exact Hl | lra].
Qed.

Lemma ratio_ge_1 p l : 0 < l -> l <= p -> 1 <= p / l.
Proof.
  intros Hl H. apply Qle_shift_div_l; [exact Hl | lra].
Qed.

(** For positive prices the range is the relative width, wherever the
    price is. *)
Lemma rangePercent_positive u l p :
  0 < u -> 0 < l -> 0 < p ->
  finite_value (rangePercent (Fin u) (Fin l) (Fin p)) (relativeWidth u l p).
Proof.
  intros Hu Hl Hp.
  assert (Nu : ~ u == 0) by lra. assert (Nl : ~ l == 0) by lra.
  pose proof (upperPercent_finite p u Nu) as Hup.
  pose proof (lowerPercent_finite p l Nl) as Hlo.
  unfold rangePercent.
  assert (Eu : (Fin u >? Fin 0)%js = true) by (apply Qltb_true; exact Hu).
  rewrite Eu, andb_true_r.
  destruct (Fin l >? Fin p)%js eqn:E.
  - assert (Hlt : p < l) by (apply Qltb_true; exact E).
    apply (ratio_lt_1 p l Hl) in Hlt.
    eapply finite_value_eq; [apply fv_sub; eassumption|].
    rewrite Qabs_pos by lra. unfold relativeWidth. field. split; assumption.
  - assert (Hge : l <= p) by (apply Qltb_false; exact E).
    apply (ratio_ge_1 p l Hl) in Hge.
    eapply finite_value_eq; [apply fv_add; eassumption|].
    rewrite Qabs_neg by lra. unfold relativeWidth. field. split; assumption.
Qed.


Lemma relativeWidth_compat u u' l l' p p' :
  u' == u -> l' == l -> p' == p ->
  relativeWidth u' l' p' == relativeWidth u l p.
Proof. intros Hu Hl Hp. unfold relativeWidth. rewrite Hu, Hl, Hp. reflexivity. Qed.

(** A prop that reads as a positive price is a non-empty string and a
    finite number. *)
Lemma positive_price_Fin s q :
  positive_price s q ->
  exists q', to_number s = Fin q' /\ q' == q /\ falsy s = false.
Proof.
  intros [Hv Hq]. destruct (to_number s) as [q' | | |] eqn:E;
    simpl in Hv; try tauto; [|exfalso; lra].
  exists q'. split; [reflexivity|]. split; [exact Hv|].
  destruct s as [[|c r]|]; try reflexivity;
    vm_compute in E; inversion E; subst q'; exfalso; lra.
Qed.

(** The score of positive prices: the band of the relative width. *)
Lemma risk_positive priceUpper priceLower price u l p :
  positive_price priceUpper u -> positive_price priceLower l ->
  positive_price price p ->
  exists score,
    risk priceUpper priceLower price = Some score /\
    finite_value score (Spec.band (relativeWidth u l p)).
Proof.
  intros Hu Hl Hp.
  destruct (positive_price_Fin _ _ Hu) as [u' [Eu [Hu' Fu]]].
  destruct (positive_price_Fin _ _ Hl) as [l' [El [Hl' Fl]]].
  destruct (positive_price_Fin _ _ Hp) as [p' [Ep [Hp' Fp]]].
  destruct Hu as [_ Hu], Hl as [_ Hl], Hp as [_ Hp].
  eexists. split; [apply risk_truthy; assumption|].
  rewrite Eu, El, Ep.
  eapply finite_value_eq.
  - apply riskBand_finite. apply rangePercent_positive; lra.
  - apply band_compat. apply relativeWidth_compat; assumption.
Qed.



Lemma reciprocal_antitone a b : 0 < a -> a <= b -> 1 / b <= 1 / a.
Proof.
  intros Ha Hab. apply Qle_shift_div_l; [exact Ha|].
  setoid_replace (1 / b * a) with (a / b) by (field; lra).
  apply Qle_shift_div_r; lra.
Qed.

(** The width grows with the range and with the price. *)
Lemma relativeWidth_nested u u' l l' p :
  0 < p -> 0 < l -> l <= l' -> 0 < u' -> u' <= u ->
  relativeWidth u' l' p <= relativeWidth u l p.
Proof.
  intros Hp Hl Hll Hu Huu. unfold relativeWidth.
  apply Qmult_le_l; [lra|].
  pose proof (reciprocal_antitone l l' Hl Hll).
  pose proof (reciprocal_antitone u' u Hu Huu). lra.
Qed.




(** Two scores are ordered as the bands of their widths. *)
Lemma scores_ordered s s' w w' :
  finite_value s (Spec.band w) -> finite_value s' (Spec.band w') ->
  w' <= w -> ge s' s = true.
Proof.
  intros Hs Hs' Hw. unfold ge.
  apply (fv_le _ _ _ _ Hs Hs').
  pose proof (band_antitone w' w Hw). lra.
Qed.

End WidthFacts.

Import PresetRangesView WidthFacts.





(** At one positive price, a range that lies within another (a lower bound
    at least as high, an upper bound at most as high) scores at least as
    much. *)
Theorem narrower_range_scores_higher :
  forall (priceUpper priceLower priceUpper' priceLower' price : option string)
         (u l u' l' p : Q),
    positive_price priceUpper u -> positive_price priceLower l ->
    positive_price priceUpper' u' -> positive_price priceLower' l' ->
    positive_price price p ->
    l <= l' -> u' <= u ->
    exists score score',
      risk priceUpper priceLower price = Some score /\
      risk priceUpper' priceLower' price = Some score' /\
      ge score' score = true.
Proof.
  intros pu pl pu' pl' pp u l u' l' p Hu Hl Hu' Hl' Hp Hll Huu.
  destruct (risk_positive _ _ _ _ _ _ Hu Hl Hp) as [s [Hs Hv]].
  destruct (risk_positive _ _ _ _ _ _ Hu' Hl' Hp) as [s' [Hs' Hv']].
  exists s, s'. split; [exact Hs|]. split; [exact Hs'|].
  apply (scores_ordered _ _ _ _ Hv Hv').
  apply relativeWidth_nested; [apply Hp | apply Hl | exact Hll | apply Hu' | exact Huu].
Qed.

Lemma narrower_range_scores_higher_witness :
  exists score score',
    risk (Some "1.4") (Some "0.8") (Some "1") = Some score /\
    risk (Some "1.1") (Some "0.95") (Some "1") = Some score' /\
    ge score' score = true.
Proof.
  refine (narrower_range_scores_higher
            (Some "1.4") (Some "0.8") (Some "1.1") (Some "0.95") (Some "1")
            1.4 0.8 1.1 0.95 1 _ _ _ _ _ _ _);
    try split; vm_compute; try reflexivity; discriminate.
Defined.





Module EdgeFacts.

Import JS Completion PresetRanges PresetRangesView NumberFacts RiskFacts.

(** NaN goes through the arithmetic. *)
Lemma add_NaN_r x : (x + NaN)%js = NaN.
Proof. destruct x; reflexivity. Qed.

Lemma sub_NaN_r x : (x - NaN)%js = NaN.
Proof. unfold sub. apply add_NaN_r. Qed.

Lemma mul_NaN_r x : (x * NaN)%js = NaN.
Proof. destruct x; reflexivity. Qed.

Lemma div_NaN_r x : (x / NaN)%js = NaN.
Proof. destruct x; reflexivity. Qed.

Lemma percent_NaN_l y : (Fin 100 - (NaN / y) * Fin 100)%js = NaN.
Proof. reflexivity. Qed.

Lemma percent_NaN_r x : (Fin 100 - (x / NaN) * Fin 100)%js = NaN.
Proof. rewrite div_NaN_r. reflexivity. Qed.

Lemma rangePercent_NaN U L P :
  U = NaN \/ L = NaN \/ P = NaN -> rangePercent U L P = NaN.
Proof.
  intros H. unfold rangePercent, upperPercent, lowerPercent.
  destruct H as [-> | [-> | ->]].
  - rewrite percent_NaN_r. destruct (_ && _); reflexivity.
  - rewrite percent_NaN_r. cbn [abs].
    destruct (_ && _); [apply sub_NaN_r | apply add_NaN_r].
  - rewrite !percent_NaN_l. destruct (_ && _); reflexivity.
Qed.


End EdgeFacts.

Import EdgeFacts.



(** When the three props are present and one of them is no number, the
    range is NaN, the score is 1 and the fills are 100, 0, 0, 0, 0. *)
Theorem non_numeric_price_scores_1 :
  forall priceUpper priceLower price : option string,
    falsy priceUpper = false -> falsy priceLower = false ->
    falsy price = false ->
    to_number priceUpper = NaN \/ to_number priceLower = NaN \/
    to_number price = NaN ->
    risk priceUpper priceLower price = Some (Fin 1) /\
    _risk (risk priceUpper priceLower price)
    = Normal (Some [Fin 100; Fin 0; Fin 0; Fin 0; Fin 0]).
Proof.
  intros pu pl pp Fu Fl Fp H.
  assert (E : risk pu pl pp = Some (Fin 1)).
  { rewrite (risk_truthy _ _ _ Fu Fl Fp), (rangePercent_NaN _ _ _ H).
    reflexivity. }
  rewrite E. split; reflexivity.
Qed.

Lemma non_numeric_price_scores_1_witness :
  risk (Some "1.2") (Some "1,05") (Some "1") = Some (Fin 1) /\
  _risk (risk (Some "1.2") (Some "1,05") (Some "1"))
  = Normal (Some [Fin 100; Fin 0; Fin 0; Fin 0; Fin 0]).
Proof.
  exact (non_numeric_price_scores_1 (Some "1.2") (Some "1,05") (Some "1")
           eq_refl eq_refl eq_refl (or_intror (or_introl eq_refl))).
Defined.

Module FillFacts.

Import JS Completion PresetRanges PresetRangesView NumberToString.
Import NumberFacts RiskFacts SegmentFacts.

Lemma same_Fin_inv x q : same x (Fin q) -> exists q', x = Fin q' /\ q' == q.
Proof.
  destruct x as [q' | | |]; simpl; try tauto. intros H. exists q'. auto.
Qed.

(** The integer part of a score between 1 and 5. *)
Lemma floor_1_5 p :
  1 <= p <= 5 ->
  (Qfloor p = 1 \/ Qfloor p = 2 \/ Qfloor p = 3 \/ Qfloor p = 4
   \/ Qfloor p = 5)%Z.
Proof.
  intros [H1 H5].
  pose proof (Qfloor_resp_le _ _ H1) as L1.
  pose proof (Qfloor_resp_le _ _ H5) as L5.
  change (Qfloor 1) with 1%Z in L1. change (Qfloor 5) with 5%Z in L5. lia.
Qed.

(** The five fills of the specification: the first is full, they do not
    increase, and they add up to a hundred times the score. *)
Lemma fill_profile p :
  1 <= p <= 5 ->
  Spec.fill p 0 == 100 /\
  0 <= Spec.fill p 4 /\
  Spec.fill p 4 <= Spec.fill p 3 /\ Spec.fill p 3 <= Spec.fill p 2 /\
  Spec.fill p 2 <= Spec.fill p 1 /\ Spec.fill p 1 <= Spec.fill p 0 /\
  Spec.fill p 0 + Spec.fill p 1 + Spec.fill p 2 + Spec.fill p 3
  + Spec.fill p 4 == 100 * p.
Proof.
  intros Hp.
  pose proof (Qfloor_le p) as Hlo.
  pose proof (Qlt_floor p) as Hhi.
  unfold Spec.fill.
  destruct (floor_1_5 p Hp) as [E | [E | [E | [E | E]]]];
    rewrite E in *; cbn [Z.ltb Z.eqb Z.compare Pos.compare Pos.compare_cont
                           Pos.eqb Z.add Pos.add Pos.succ] in *;
    unfold inject_Z in *; repeat split; lra.
Qed.

End FillFacts.

Import FillFacts SegmentFacts NumberToString.

(** Whenever there is a score, [_risk] gives five finite fills: the first
    is 100, they do not increase, none is negative, and they add up to a
    hundred times the score. *)
Theorem fills_profile :
  forall (priceUpper priceLower price : option string) (score : number),
    risk priceUpper priceLower price = Some score ->
    exists f0 f1 f2 f3 f4 : Q,
      _risk (risk priceUpper priceLower price)
      = Normal (Some [Fin f0; Fin f1; Fin f2; Fin f3; Fin f4]) /\
      f0 == 100 /\
      0 <= f4 /\ f4 <= f3 /\ f3 <= f2 /\ f2 <= f1 /\ f1 <= f0 /\
      f0 + f1 + f2 + f3 + f4 == 100 * value score.
Proof.
  intros pu pl pp score Hs. rewrite Hs.
  apply risk_defined in Hs.
  pose proof (riskBand_range
                (rangePercent (to_number pu) (to_number pl) (to_number pp)))
    as [H1 H5].
  rewrite <- Hs in H1, H5. clear Hs.
  destruct (in_band _ _ _ H1 H5) as [q [Hq [Hq1 Hq5]]].
  destruct score as [p | | |]; simpl in Hq; try tauto; [|exfalso; lra].
  assert (Hp : 1 <= p <= 5) by (rewrite Hq; split; assumption).
  rewrite _risk_Some, toString_plain by exact Hp.
  cbn [map value].
  destruct (same_Fin_inv _ _ (segment_plain p 0 (proj1 Hp))) as [f0 [-> E0]].
  destruct (same_Fin_inv _ _ (segment_plain p 1 (proj1 Hp))) as [f1 [-> E1]].
  destruct (same_Fin_inv _ _ (segment_plain p 2 (proj1 Hp))) as [f2 [-> E2]].
  destruct (same_Fin_inv _ _ (segment_plain p 3 (proj1 Hp))) as [f3 [-> E3]].
  destruct (same_Fin_inv _ _ (segment_plain p 4 (proj1 Hp))) as [f4 [-> E4]].
  exists f0, f1, f2, f3, f4. split; [reflexivity|].
  rewrite E0, E1, E2, E3, E4. apply fill_profile. exact Hp.
Qed.

Lemma fills_profile_witness :
  exists f0 f1 f2 f3 f4 : Q,
    _risk (risk (Some "1.2") (Some "0.9") (Some "1.0"))
    = Normal (Some [Fin f0; Fin f1; Fin f2; Fin f3; Fin f4]) /\
    f0 == 100 /\
    0 <= f4 /\ f4 <= f3 /\ f3 <= f2 /\ f2 <= f1 /\ f1 <= f0 /\
    f0 + f1 + f2 + f3 + f4 == 100 * (510000 # 162000).
Proof.
  exact (fills_profile (Some "1.2") (Some "0.9") (Some "1.0") _ eq_refl).
Defined.

(** In both lists of presets every preset has 0 <= min < 1 < max, so that
    it contains the current price; the types are distinct; and each preset
    lies strictly within the one listed before it. *)
Theorem presets_contain_price_and_nest :
  forall (t : string -> string) (isStablecoinPair : bool),
    Forall (fun r => le (Fin 0) (min r) = true /\
                     (min r <? Fin 1)%js = true /\
                     (Fin 1 <? max r)%js = true)
           (ranges t isStablecoinPair)
    /\ NoDup (map type (ranges t isStablecoinPair))
    /\ (forall (i : nat) (wide narrow : Range),
           nth_error (ranges t isStablecoinPair) i = Some wide ->
           nth_error (ranges t isStablecoinPair) (S i) = Some narrow ->
           (min wide <? min narrow)%js = true /\
           (max narrow <? max wide)%js = true).
Proof.
  intros t b. split; [|split].
  - destruct b; repeat constructor.
  - destruct b; repeat constructor; simpl; intuition discriminate.
  - intros i wide narrow Hw Hn.
    destruct b; simpl in Hw, Hn;
      repeat (destruct i as [|i]; simpl in Hw, Hn; try discriminate);
      inversion Hw; inversion Hn; subst; split; reflexivity.
Qed.

(** A string prop is present: defined and not empty. *)
Lemma falsy_false_iff s :
  falsy s = false <-> exists str, s = Some str /\ str <> "".
Proof.
  split.
  - destruct s as [[|c r]|]; try discriminate. intros _.
    eexists. split; [reflexivity | discriminate].
  - intros [str [-> H]]. destruct str; [contradiction | reflexivity].
Qed.

(** The risk and profit rows are rendered exactly when the three price
    props are present and not empty, the range is valid and the pair is no
    stablecoin pair. *)
Theorem riskInfoShown_iff :
  forall (priceUpper priceLower price : option string)
         (invalidRange isStablecoinPair : bool),
    riskInfoShown priceUpper priceLower price invalidRange isStablecoinPair
    = true
    <-> ((exists s, priceUpper = Some s /\ s <> "") /\
         (exists s, priceLower = Some s /\ s <> "") /\
         (exists s, price = Some s /\ s <> "") /\
         invalidRange = false /\ isStablecoinPair = false).
Proof.
  intros pu pl pp inv st. rewrite <- !falsy_false_iff.
  unfold riskInfoShown, risk.
  destruct (falsy pu), (falsy pl), (falsy pp); cbn [orb];
    try (split; [discriminate | intros H; decompose [and] H; discriminate]).
  rewrite SegmentFacts._risk_Some.
  destruct inv, st; simpl; split; try discriminate; try tauto;
    intros H; decompose [and] H; discriminate.
Qed.

(** At most one preset button carries the class [active-preset], and a
    click ends with the call on null exactly on a button that carries it. *)
Theorem highlighted_button_deselects :
  forall (t : string -> string) (isStablecoinPair : bool)
         (activePreset : option Presets),
    (List.length
       (filter (fun r => String.eqb (className activePreset r) "active-preset")
               (ranges t isStablecoinPair)) <= 1)%nat
    /\ (forall range : Range,
           className activePreset range = "active-preset"
           <-> List.last (onClick (list (option Range)) log_call
                            activePreset range []) (Some range) = None).
Proof.
  intros t b a. split.
  - destruct b, a as [[]|]; simpl; lia.
  - intros range. unfold className, onClick, is_active, log_call.
    destruct a as [p|]; simpl; [|split; discriminate].
    destruct (Presets_eqb p (type range)); simpl; split;
      try discriminate; reflexivity.
Qed.

Import AddLiquidityButton.

(** For two different wrapped tokens and a hook that returns one of them
    as base, the price is shown inverted exactly when that base is the
    quote token, whatever the order of the tokens; the labels are swapped
    exactly when the order and the base agree.  In a pair that is not
    sorted and not inverted by the hook the price is not inverted and the
    labels are swapped. *)
Theorem price_direction_ignores_sort_order :
  forall (Token : Type) (sortsBefore equals : Token -> Token -> bool)
         (Currency : Type) (baseCurrency quoteCurrency : Currency)
         (b q x : Token),
    (forall a c, equals a c = true <-> a = c) ->
    b <> q -> x = b \/ x = q ->
    let sorted := isSorted Token sortsBefore (Some b) (Some q) in
    let inv := inverted Token sortsBefore equals (Some b) (Some q) (Some x) in
    (priceInverted sorted inv = true <-> x = q) /\
    (truthy inv = true <-> (sortsBefore b q = true <-> x = q)) /\
    (sortsBefore b q = false -> x = b ->
     priceInverted sorted inv = false /\
     currencyQuote inv baseCurrency quoteCurrency = baseCurrency /\
     currencyBase inv baseCurrency quoteCurrency = quoteCurrency).
Proof.
  intros Token sortsBefore equals Currency bc qc b q x Heq Hbq Hx sorted inv.
  assert (Ebb : equals b b = true) by (apply Heq; reflexivity).
  assert (Eqq : equals q q = true) by (apply Heq; reflexivity).
  assert (Ebq : equals b q = false).
  { destruct (equals b q) eqn:E; [|reflexivity].
    apply Heq in E. contradiction. }
  assert (Eqb : equals q b = false).
  { destruct (equals q b) eqn:E; [|reflexivity].
    apply Heq in E. symmetry in E. contradiction. }
  unfold sorted, inv, priceInverted, inverted, isSorted, currencyQuote,
    currencyBase. cbn [truthy].
  destruct (sortsBefore b q); destruct Hx as [-> | ->];
    cbn [truthy]; rewrite ?Ebb, ?Eqq, ?Ebq, ?Eqb; simpl;
    repeat split; try tauto; try congruence; try discriminate;
    intros; try (exfalso; congruence); auto.
  all: try (intros [H1 H2]; auto; discriminate).
Qed.

Lemma price_direction_ignores_sort_order_witness :
  priceInverted
    (isSorted bool (fun a c => negb a && c) (Some true) (Some false))
    (inverted bool (fun a c => negb a && c) Bool.eqb
       (Some true) (Some false) (Some true))
  = false.
Proof.
  refine (proj1 (proj2 (proj2
            (price_direction_ignores_sort_order
               bool (fun a c => negb a && c) Bool.eqb
               nat 0%nat 1%nat true false true _ _ _))
            eq_refl eq_refl)).
  - intros a c. destruct a, c; simpl; split; congruence.
  - discriminate.
  - left; reflexivity.
Defined.

(** The box of the current price is rendered exactly when there is a price
    and the parsed number is not NaN; it shows the text [< 0.0001] exactly
    when the number is at most 0.0001 (zero and negative numbers included),
    and a number it shows is above 0.0001. *)
Theorem currentPrice_display :
  forall (Price : Type) (invert : Price -> Price)
         (toSignificant5 : Price -> string) (parseFloat : string -> number)
         (price : option Price) (isSorted inverted : option bool),
    let shown := currentPrice Price invert toSignificant5 parseFloat
                   price isSorted inverted in
    (currentPriceShown shown = true
     <-> exists pr, price = Some pr /\
           _price Price invert toSignificant5 parseFloat pr isSorted inverted
           <> NaN) /\
    (forall pr, price = Some pr ->
        (shown = Some (inl "< 0.0001")
         <-> le (_price Price invert toSignificant5 parseFloat
                   pr isSorted inverted) (Fin 0.0001) = true)) /\
    (forall n, shown = Some (inr n) ->
        n = NaN \/ (Fin 0.0001 <? n)%js = true).
Proof.
  intros Price invert toSignificant5 parseFloat price sorted inv shown.
  unfold shown, currentPrice. clear shown.
  destruct price as [pr|]; cbn [currentPriceShown].
  - remember (_price Price invert toSignificant5 parseFloat pr sorted inv)
      as n eqn:En.
    assert (Hsmall : le n (Fin 0.0001) = false ->
                     n = NaN \/ (Fin 0.0001 <? n)%js = true).
    { intros E.
      destruct (number_cases n) as [-> | [[[] ->] | [q Hq]]];
        [left; reflexivity | discriminate E | right; reflexivity | right].
      rewrite (fv_lt _ _ _ _ (finite_value_Fin _) Hq).
      apply Qltb_true.
      destruct (Qlt_le_dec 0.0001 q) as [H | H]; [exact H|].
      apply (fv_le _ _ _ _ Hq (finite_value_Fin _)) in H. congruence. }
    split; [|split].
    + destruct (le n (Fin 0.0001)) eqn:E; cbn [currentPriceShown].
      * split; [|reflexivity].
        intros _. exists pr. split; [reflexivity|].
        rewrite <- En. intros ->. discriminate E.
      * split.
        -- intros H. exists pr. split; [reflexivity|].
           rewrite <- En. intros ->. discriminate H.
        -- intros [pr' [Hp Hn]]. injection Hp as <-. rewrite <- En in Hn.
           destruct (Hsmall eq_refl) as [-> | Hlt]; [contradiction|].
           destruct n as [q | | s |]; try discriminate Hlt; try reflexivity.
           cbn [is_zero]. apply negb_true_iff. apply Qeqb_false.
           cbn [lt value] in Hlt. apply Qltb_true in Hlt.
           intros Hq. rewrite Hq in Hlt. discriminate Hlt.
    + intros pr' Hp. injection Hp as <-. rewrite <- En.
      destruct (le n (Fin 0.0001)); split; try reflexivity; discriminate.
    + intros m Hm. destruct (le n (Fin 0.0001)) eqn:E; [discriminate|].
      injection Hm as <-. apply Hsmall. reflexivity.
  - split; [|split].
    + split; [discriminate | intros [pr [H _]]; discriminate].
    + intros pr H; discriminate.
    + intros n H; discriminate.
Qed.



